(** * SQUANCh quantum streams

    A shallow embedding of [squanch/qstream.py]: the batched state-vector
    storage [QStream], the row views [QSystem] handed out by [system] and
    [pop], operator application [apply], and the [Qubit] handles of a
    system. Measurement is left out: it is delegated to
    [statevector.collapse], which is not part of the file and samples its
    outcome.

    Conventions of the embedding.
    - Python integers ([systemSize], [numSystems], [index], the head
      cursor) are [Z].
    - A one-dimensional array is a [list] of amplitudes, the two-dimensional
      storage a list of rows.  Amplitudes are kept abstract (class
      [Amplitude]): the source stores [complex64] values, the embedding
      computes with exact ring operations, so nothing below speaks about
      rounding.
    - A [QSystem] holds its row "by reference": the embedding keeps the
      number of the row inside the stream's storage, and [apply] updates
      that row of the shared storage in place.
    - A method is a function from the object's state to an outcome and the
      state left behind, [M S A := S -> result A * S]; a raised exception
      keeps the state as it was when the exception was raised. *)

From Stdlib Require Import ZArith List Lia Bool Ring.
From stdpp Require Import base list numbers.

Local Open Scope Z_scope.

(** ** Exceptions and the method monad *)

(** The exceptions the code can raise: the source has no [raise] of its
    own, every failure comes out of an array operation or out of [int]. *)
Inductive Exception : Type :=
| IndexError      (* array index out of bounds *)
| ValueError      (* shapes not aligned, failed broadcast, negative repeat count *)
| OverflowError.  (* int() of a float infinity *)

Inductive result (A : Type) : Type :=
| Ok (a : A)
| Raise (e : Exception).
Arguments Ok {A} a.
Arguments Raise {A} e.

Definition is_Raise {A} (r : result A) : bool :=
  match r with Raise _ => true | Ok _ => false end.

Definition M (S A : Type) : Type := S -> result A * S.

#[global] Instance M_ret {S} : MRet (M S) := fun A a s => (Ok a, s).
#[global] Instance M_bind {S} : MBind (M S) := fun A B k m s =>
  match m s with
  | (Ok a, s') => k a s'
  | (Raise e, s') => (Raise e, s')
  end.

Definition get {S} : M S S := fun s => (Ok s, s).
Definition put {S} (s : S) : M S unit := fun _ => (Ok tt, s).
(** An operation that only reads the state (and may raise). *)
Definition reading {S A} (f : S -> result A) : M S A := fun s => (f s, s).

(** ** Amplitudes *)

Class Amplitude (C : Type) : Type := {
  czero : C;
  cone : C;
  cadd : C -> C -> C;
  cmul : C -> C -> C;
  cconj : C -> C
}.

(** A two-dimensional operator: its rows, and the number of columns (which
    an operator without rows still has). *)
Record Matrix (C : Type) : Type := {
  ncols : nat;
  rows : list (list C)
}.
Arguments ncols {C} m.
Arguments rows {C} m.
Arguments Build_Matrix {C} ncols rows.

Definition nrows {C} (m : Matrix C) : nat := length (rows m).

(** Every row has [ncols] entries: the matrix is a rectangular array. *)
Definition well_shaped {C} (m : Matrix C) : bool :=
  forallb (fun r => Nat.eqb (length r) (ncols m)) (rows m).

(** ** The array operations the source uses *)

Module np.
Section Arrays.
Context {C : Type} `{Amplitude C}.

(** [a[i]] on the first axis: an index in [-n, n) selects a row, a
    negative one counting from the end; the result is the number of the
    selected row (the row itself is not copied). *)
Definition getitem (a : list (list C)) (i : Z) : result nat :=
  let n := Z.of_nat (length a) in
  if (0 <=? i) && (i <? n) then Ok (Z.to_nat i)
  else if (- n <=? i) && (i <? 0) then Ok (Z.to_nat (i + n))
  else Raise IndexError.

(** [np.repeat([row], repeats, axis=0)]. *)
Definition repeat (row : list C) (repeats : Z) : result (list (list C)) :=
  if repeats <? 0 then Raise ValueError
  else Ok (replicate (Z.to_nat repeats) row).

(** Sum of the products of corresponding entries. *)
Definition inner (r v : list C) : C :=
  foldr cadd czero (zip_with cmul r v).

(** [np.dot(operator, v)] for a two-dimensional operator and a
    one-dimensional [v]: the last axis of the operator must have the
    length of [v]; the result has one entry per row of the operator. *)
Definition dot (operator : Matrix C) (v : list C) : result (list C) :=
  if Nat.eqb (ncols operator) (length v)
  then Ok (map (fun r => inner r v) (rows operator))
  else Raise ValueError.

(** [dst[...] = src] for one-dimensional arrays: [src] is broadcast to
    the shape of [dst], which succeeds when the lengths agree or [src]
    has a single entry. The result is the new content of [dst]. *)
Definition assign (dst src : list C) : result (list C) :=
  if Nat.eqb (length src) (length dst) then Ok src
  else match src with
       | [x] => Ok (replicate (length dst) x)
       | _ => Raise ValueError
       end.

(** [int(np.log2(size))]: [np.log2 0] is minus infinity, which [int]
    refuses; otherwise [int] drops the fractional part of the logarithm
    (for the sizes an array can have, the rounded logarithm and the exact
    one have the same integer part). *)
Definition log2_int (size : nat) : result Z :=
  if Nat.eqb size 0 then Raise OverflowError
  else Ok (Z.log2 (Z.of_nat size)).
End Arrays.
End np.

Module linalg.
Section Kron.
Context {C : Type} `{Amplitude C}.

(** Modelled from the spec: [linalg.tensorProd], which is imported by
    [qstream.py] and not part of it. The spec gives it as the Kronecker
    product of two vectors, "combining two vectors' state spaces into a
    composite space of multiplied dimension": entry [i * length b + j]
    of the result is [a_i * b_j]. It is "used once per qubit during stream
    construction to build the canonical all-zero basis vector", and the
    constructor starts that construction from the empty array: an empty
    operand is the unit of the product, the other operand is returned as
    it is. *)
Definition tensorProd (a b : list C) : list C :=
  match a, b with
  | [], _ => b
  | _, [] => a
  | _, _ => flat_map (fun x => map (cmul x) b) a
  end.
End Kron.
End linalg.

(** Python's [for _ in range(n): x = body(x)]. *)
Definition for_range {X} (n : Z) (body : X -> X) (x : X) : X :=
  Nat.iter (Z.to_nat n) body x.

(** ** QSystem *)

Module QSystem.
Section QSystem.
Context {C : Type} `{Amplitude C}.

(** [state] is the number of the storage row the system views,
    [numQubits] is computed once, at construction. *)
Record t : Type := {
  state : nat;
  numQubits : Z
}.

(** [QSystem.__init__(self, state)], for the row [ref] of [heap]. A
    view is always constructed over an existing row, so the first
    branch is never taken by [QStream.system]. *)
Definition init (heap : list (list C)) (ref : nat) : result t :=
  match heap !! ref with
  | None => Raise IndexError
  | Some v =>
      match np.log2_int (length v) with
      | Raise e => Raise e
      | Ok n => Ok {| state := ref; numQubits := n |}
      end
  end.

(** [QSystem.apply(self, operator)]:
    [self.state[...] = np.dot(operator, self.state)], acting on the row
    of the shared storage. *)
Definition apply (self : t) (operator : Matrix C) : M (list (list C)) unit :=
  fun heap =>
    match heap !! state self with
    | None => (Raise IndexError, heap)
    | Some v =>
        match np.dot operator v with
        | Raise e => (Raise e, heap)
        | Ok w =>
            match np.assign v w with
            | Raise e => (Raise e, heap)
            | Ok v' => (Ok tt, <[state self := v']> heap)
            end
        end
    end.
End QSystem.
End QSystem.

(** ** QStream *)

Module QStream.
Section QStream.
Context {C : Type} `{Amplitude C}.

(** [state] is the storage, one row per system; [index] is the head of
    the stream. *)
Record t : Type := {
  state : list (list C);
  index : Z
}.

Definition numSystems (self : t) : Z := Z.of_nat (length (state self)).

Definition initialQubitState : list C := [cone; czero].

(** The loop of the constructor, for a given tensor product. *)
Definition initialSystemState (tensorProd : list C -> list C -> list C) : list C :=
  for_range 2 (fun acc => tensorProd acc initialQubitState) [].

(** [QStream.__init__(self, systemSize, numSystems)], for a given tensor
    product. The body never reads [systemSize]. *)
Definition init_with (tensorProd : list C -> list C -> list C)
    (systemSize numSystems : Z) : result t :=
  match np.repeat (initialSystemState tensorProd) numSystems with
  | Raise e => Raise e
  | Ok st => Ok {| state := st; index := 0 |}
  end.

(** The constructor, with [linalg.tensorProd]. *)
Definition init (systemSize numSystems : Z) : result t :=
  init_with linalg.tensorProd systemSize numSystems.

(** [QStream.system(self, index)]. *)
Definition system (idx : Z) : M t QSystem.t :=
  self ← get;
  ref ← reading (fun _ => np.getitem (state self) idx);
  reading (fun _ => QSystem.init (state self) ref).

(** [QStream.pop(self)]. *)
Definition pop : M t QSystem.t :=
  self ← get;
  sys ← system (index self);
  self' ← get;
  _ ← put {| state := state self'; index := index self' + 1 |};
  mret sys.

(** [sys.apply(operator)] for a system of this stream: the row it
    views is a row of [self.state]. *)
Definition apply (sys : QSystem.t) (operator : Matrix C) : M t unit :=
  fun self =>
    let (r, heap) := QSystem.apply sys operator (state self) in
    (r, {| state := heap; index := index self |}).

(** [n] successive calls of [pop], collecting what they return; stops at
    the first exception. *)
Fixpoint pops (n : nat) : M t (list QSystem.t) :=
  match n with
  | O => mret []
  | S n' => sys ← pop; rest ← pops n'; mret (sys :: rest)
  end.
End QStream.
End QStream.

(** ** An executable instance: Gaussian integers

    Amplitudes with integer real and imaginary parts are enough to run the
    code on basis states and on 0/1 operators. *)

Record Gauss : Type := { re : Z; im : Z }.

#[global] Instance Gauss_Amplitude : Amplitude Gauss := {|
  czero := {| re := 0; im := 0 |};
  cone := {| re := 1; im := 0 |};
  cadd x y := {| re := re x + re y; im := im x + im y |};
  cmul x y := {| re := re x * re y - im x * im y;
                 im := re x * im y + im x * re y |};
  cconj x := {| re := re x; im := - im x |}
|}.

Definition g0 : Gauss := czero.
Definition g1 : Gauss := cone.

(** The squared norm of a state vector, the sum of [conj a * a] over its
    amplitudes: a vector has unit norm exactly when this is one. *)
Definition normSq {C} `{Amplitude C} (v : list C) : C :=
  foldr cadd czero (map (fun a => cmul (cconj a) a) v).

(** The basis vector with amplitude one at index 0 and zero elsewhere. *)
Definition basis0 {C} `{Amplitude C} (dim : nat) : list C :=
  match dim with
  | O => []
  | S d => cone :: replicate d czero
  end.

(** The view [system] builds over row [i] of a storage whose row [i] is
    not empty. *)
Definition view_of {C} (heap : list (list C)) (i : nat) : QSystem.t :=
  {| QSystem.state := i;
     QSystem.numQubits := Z.log2 (Z.of_nat (length (default [] (heap !! i)))) |}.

(** The stream with its head moved to [head]. *)
Definition with_index {C} (self : QStream.t (C:=C)) (head : Z) : QStream.t :=
  {| QStream.state := QStream.state self; QStream.index := head |}.

(** The two-qubit stream with one system in its basis state, head at
    [head]. *)
Definition stream2 (head : Z) : QStream.t (C:=Gauss) :=
  {| QStream.state := [[g1; g0; g0; g0]]; QStream.index := head |}.

(** A one-qubit storage with a single system in its basis state, and the
    view [system(0)] returns over it. *)
Definition heap1 : list (list Gauss) := [[g1; g0]].
Definition sys1 : QSystem.t := {| QSystem.state := 0; QSystem.numQubits := 1 |}.

(** A 1 x 2 operator, and a 2 x 3 operator. *)
Definition row_operator : Matrix Gauss := Build_Matrix 2 [[g1; g1]].
Definition wide_operator : Matrix Gauss :=
  Build_Matrix 3 [[g1; g0; g0]; [g0; g1; g0]].

(** ** Operators as linear maps

    What is needed to say that an operator is unitary: sums and multiples
    of vectors, the product of two operators, the conjugate transpose and
    the identity. *)

Section Linear.
Context {C : Type} `{Amplitude C}.

Definition vadd (a b : list C) : list C := zip_with cadd a b.

(** [c_1 * b_1 + ... + c_k * b_k] for vectors [b_i] of length [n]. *)
Fixpoint lincomb (n : nat) (c : list C) (bs : list (list C)) : list C :=
  match c, bs with
  | x :: c', b :: bs' => vadd (map (cmul x) b) (lincomb n c' bs')
  | _, _ => replicate n czero
  end.

(** The columns of the rows [m], each of length [n]. *)
Fixpoint transpose (n : nat) (m : list (list C)) : list (list C) :=
  match m with
  | [] => replicate n []
  | r :: m' => zip_with cons r (transpose n m')
  end.

(** The conjugate transpose. *)
Definition adjoint (u : Matrix C) : Matrix C :=
  {| ncols := nrows u;
     rows := transpose (ncols u) (map (map cconj) (rows u)) |}.

(** The product [a b]: row [i] of the product is the combination of the
    rows of [b] with the entries of row [i] of [a]. *)
Definition mmul (a b : Matrix C) : Matrix C :=
  {| ncols := ncols b;
     rows := map (fun r => lincomb (ncols b) r (rows b)) (rows a) |}.

Definition unit_vector (n i : nat) : list C :=
  map (fun j => if Nat.eqb j i then cone else czero) (seq 0 n).

Definition identity (n : nat) : Matrix C :=
  {| ncols := n; rows := map (unit_vector n) (seq 0 n) |}.

(** A square operator whose conjugate transpose is its left inverse. *)
Definition unitary (u : Matrix C) : Prop :=
  well_shaped u = true
  /\ nrows u = ncols u
  /\ mmul (adjoint u) u = identity (ncols u).
End Linear.

(** The laws of exact amplitudes: a commutative semiring with a
    conjugation that respects sums and products. *)
Class AmplitudeLaws (C : Type) `{Amplitude C} : Prop := {
  amp_semiring : semi_ring_theory czero cone cadd cmul eq;
  cconj_zero : cconj czero = czero;
  cconj_add : forall x y : C, cconj (cadd x y) = cadd (cconj x) (cconj y);
  cconj_mul : forall x y : C, cconj (cmul x y) = cmul (cconj x) (cconj y);
  cconj_invol : forall x : C, cconj (cconj x) = x
}.

(** The imaginary unit, and the operator [i * identity] on one qubit. *)
Definition gi : Gauss := {| re := 0; im := 1 |}.
Definition phase_operator : Matrix Gauss := Build_Matrix 2 [[gi; g0]; [g0; gi]].

(** ** Qubit *)

Module Qubit.
(** [index] is the position of the qubit in its system, [qSystem] the
    system it belongs to (a view, not a copy). *)
Record t : Type := {
  index : Z;
  qSystem : QSystem.t
}.

(** [Qubit.__init__(self, qSystem, index)]. *)
Definition init (sys : QSystem.t) (i : Z) : t :=
  {| index := i; qSystem := sys |}.
End Qubit.

(** Python's [range(n)]: 0, 1, ..., [n - 1], empty for [n <= 0]. *)
Definition range (n : Z) : list Z := seqZ 0 n.

(** [QSystem.qubits(self)]: the qubits the generator
    [(Qubit(self, i) for i in range(self.numQubits))] yields, in order. *)
Definition qubits (self : QSystem.t) : list Qubit.t :=
  Qubit.init self <$> range (QSystem.numQubits self).

(** The stream the constructor builds for [numSystems] systems: every row
    is the two-qubit basis state, the head is at 0. *)
Definition fresh_stream (numSystems : nat) : QStream.t (C:=Gauss) :=
  {| QStream.state := replicate numSystems [g1; g0; g0; g0];
     QStream.index := 0 |}.

(** A stream of two one-qubit systems, the first in state [1, 0], the
    second in state [0, 1], head at [head]. *)
Definition two_systems (head : Z) : QStream.t (C:=Gauss) :=
  {| QStream.state := [[g1; g0]; [g0; g1]]; QStream.index := head |}.

(** The operator exchanging the two basis states of one qubit. *)
Definition flip_operator : Matrix Gauss := Build_Matrix 2 [[g0; g1]; [g1; g0]].

(** * Properties *)

(** ** The array operations *)

Section ArrayFacts.
Context {C : Type} `{Amplitude C}.
Implicit Types (a heap : list (list C)) (v w : list C) (i : Z).

Lemma getitem_nonneg a i :
  0 <= i < Z.of_nat (length a) -> np.getitem a i = Ok (Z.to_nat i).
Proof.
  intros [Hlo Hhi]. unfold np.getitem.
  apply Z.leb_le in Hlo. apply Z.ltb_lt in Hhi.
  now rewrite Hlo, Hhi.
Qed.

Lemma getitem_negative a i :
  - Z.of_nat (length a) <= i < 0 ->
  np.getitem a i = Ok (Z.to_nat (i + Z.of_nat (length a))).
Proof.
  intros [Hlo Hhi]. unfold np.getitem.
  replace (0 <=? i) with false by (symmetry; apply Z.leb_gt; lia).
  apply Z.leb_le in Hlo. apply Z.ltb_lt in Hhi.
  cbn. now rewrite Hlo, Hhi.
Qed.

Lemma getitem_out_of_bounds a i :
  i < - Z.of_nat (length a) \/ Z.of_nat (length a) <= i ->
  np.getitem a i = Raise IndexError.
Proof.
  intros Hout. unfold np.getitem.
  destruct (Z.leb_spec 0 i), (Z.ltb_spec i (Z.of_nat (length a)));
    cbn; try lia;
    destruct (Z.leb_spec (- Z.of_nat (length a)) i), (Z.ltb_spec i 0);
    cbn; try lia; reflexivity.
Qed.

(** A selected row exists. *)
Lemma getitem_Ok_lt a i r :
  np.getitem a i = Ok r -> (r < length a)%nat.
Proof.
  unfold np.getitem.
  destruct (Z.leb_spec 0 i), (Z.ltb_spec i (Z.of_nat (length a)));
    cbn; try (intros [= <-]; lia);
    destruct (Z.leb_spec (- Z.of_nat (length a)) i), (Z.ltb_spec i 0);
    cbn; try discriminate; intros [= <-]; lia.
Qed.

Lemma tensorProd_nil_l w : linalg.tensorProd [] w = w.
Proof. reflexivity. Qed.

Lemma tensorProd_nil_r v : linalg.tensorProd v [] = v.
Proof. now destruct v. Qed.

(** The dimensions of two non-empty operands multiply. *)
Lemma tensorProd_length v w :
  v <> [] -> w <> [] ->
  length (linalg.tensorProd v w) = (length v * length w)%nat.
Proof.
  intros Hv Hw. unfold linalg.tensorProd.
  destruct v as [|x0 v0] eqn:Ev; [contradiction|].
  destruct w as [|y0 w0] eqn:Ew; [contradiction|].
  rewrite <- Ev, <- Ew. clear.
  induction v as [|x v IH]; cbn; [reflexivity|].
  now rewrite length_app, length_map, IH.
Qed.

(** The constructor's loop, started from the empty array, stops after two
    products: the system state has the four entries
    [1 * 1, 1 * 0, 0 * 1, 0 * 0]. *)
Lemma initialSystemState_value :
  QStream.initialSystemState linalg.tensorProd =
    [cmul cone cone; cmul cone czero; cmul czero cone; cmul czero czero :> C].
Proof. reflexivity. Qed.

Lemma log2_int_pos (n : nat) :
  n <> O -> np.log2_int n = Ok (Z.log2 (Z.of_nat n)).
Proof.
  intros Hn. unfold np.log2_int.
  destruct (Nat.eqb_spec n 0); [contradiction | reflexivity].
Qed.
End ArrayFacts.

(** ** Construction *)

Section Construction.
Context {C : Type} `{Amplitude C}.

(** Whatever the tensor product computes, the constructor's result does
    not depend on [systemSize]. *)
Lemma init_systemSize_irrelevant tensorProd (s s' numSystems : Z) :
  QStream.init_with (C:=C) tensorProd s numSystems =
    QStream.init_with tensorProd s' numSystems.
Proof. reflexivity. Qed.

Lemma init_Ok (systemSize numSystems : Z) :
  0 <= numSystems ->
  QStream.init (C:=C) systemSize numSystems =
    Ok {| QStream.state :=
            replicate (Z.to_nat numSystems)
              (QStream.initialSystemState linalg.tensorProd);
          QStream.index := 0 |}.
Proof.
  intros Hm. unfold QStream.init, QStream.init_with, np.repeat.
  destruct (Z.ltb_spec numSystems 0); [lia | reflexivity].
Qed.

(** Every row of a constructed stream is the system state the loop has
    built, whatever [systemSize] is. *)
Lemma init_rows (systemSize numSystems : Z) (st : QStream.t) (row : list C) :
  QStream.init systemSize numSystems = Ok st ->
  row ∈ QStream.state st ->
  row = QStream.initialSystemState linalg.tensorProd.
Proof.
  unfold QStream.init, QStream.init_with, np.repeat.
  destruct (numSystems <? 0); [discriminate|].
  intros [= <-]; cbn. intros Hin.
  now apply elem_of_replicate in Hin as [-> _].
Qed.
End Construction.

(** C1 (the code departs from the claim). At [systemSize = 3],
    [numSystems = 1] the constructor returns a stream whose single row is
    the two-qubit vector of four entries [1 * 1, 1 * 0, 0 * 1, 0 * 0], not
    the 8-entry vector with amplitude one at index 0: the loop runs
    [range(2)] whatever [systemSize] is.  The storage is the same for every
    [systemSize], and this whatever function stands for the tensor
    product. *)
Theorem init_ignores_systemSize :
  forall (C : Type) (A : Amplitude C),
    QStream.init (C:=C) 3 1 =
      Ok {| QStream.state :=
              [[cmul cone cone; cmul cone czero; cmul czero cone; cmul czero czero]];
            QStream.index := 0 |}
    /\ (forall st, QStream.init (C:=C) 3 1 = Ok st ->
          QStream.state st <> [basis0 8])
    /\ (forall tensorProd s s' m,
          QStream.init_with (C:=C) tensorProd s m =
            QStream.init_with tensorProd s' m).
Proof.
  intros C A. split; [reflexivity|]. split.
  - intros st [= <-]. cbn. discriminate.
  - intros. reflexivity.
Qed.

(** A negative [numSystems] is refused, by the replication. *)
Lemma init_negative_numSystems {C} `{Amplitude C} (systemSize numSystems : Z) :
  numSystems < 0 -> QStream.init (C:=C) systemSize numSystems = Raise ValueError.
Proof.
  intros Hm. unfold QStream.init, QStream.init_with, np.repeat.
  destruct (Z.ltb_spec numSystems 0); [reflexivity | lia].
Qed.

(** C2, as the code has it. The constructor checks nothing: whatever
    [systemSize] is (zero and negative values included), it succeeds for
    every [numSystems >= 0], with [numSystems] rows (none for
    [numSystems = 0]) and the head at 0; it fails only for
    [numSystems < 0], with the [ValueError] of the replication. *)
Theorem init_performs_no_validation :
  forall (C : Type) (A : Amplitude C) (systemSize numSystems : Z),
    (0 <= numSystems ->
     exists st : QStream.t,
       QStream.init (C:=C) systemSize numSystems = Ok st
       /\ QStream.numSystems st = numSystems
       /\ QStream.index st = 0)
    /\ (numSystems < 0 ->
        QStream.init (C:=C) systemSize numSystems = Raise ValueError).
Proof.
  intros C A systemSize numSystems. split.
  - intros Hm. eexists. split; [apply init_Ok; exact Hm|].
    unfold QStream.numSystems; cbn. rewrite length_replicate.
    split; [lia | reflexivity].
  - apply init_negative_numSystems.
Qed.

Lemma init_performs_no_validation_witness :
  (exists st : QStream.t,
     QStream.init (C:=Gauss) (-5) 1 = Ok st
     /\ QStream.numSystems st = 1
     /\ QStream.index st = 0)
  /\ QStream.init (C:=Gauss) 2 (-1) = Raise ValueError.
Proof.
  split.
  - apply (proj1 (init_performs_no_validation Gauss _ (-5) 1)). lia.
  - apply (proj2 (init_performs_no_validation Gauss _ 2 (-1))). lia.
Defined.

(** C2, the claim as stated fails: [QStream(0, 1)] and [QStream(1, 0)]
    are built without an error, the second one with no row at all. *)
Lemma init_nonpositive_accepted :
  QStream.init (C:=Gauss) 0 1 =
    Ok {| QStream.state := [[g1; g0; g0; g0]]; QStream.index := 0 |}
  /\ QStream.init (C:=Gauss) 1 0 = Ok {| QStream.state := []; QStream.index := 0 |}.
Proof. split; reflexivity. Qed.

(** ** Access and the head cursor *)

Section Access.
Context {C : Type} `{Amplitude C}.
Implicit Types (self : QStream.t (C:=C)) (idx : Z).

Lemma system_unfold self idx :
  QStream.system idx self =
    match np.getitem (QStream.state self) idx with
    | Ok ref => (QSystem.init (QStream.state self) ref, self)
    | Raise e => (Raise e, self)
    end.
Proof.
  unfold QStream.system, mbind, M_bind, get, reading.
  now destruct (np.getitem _ _).
Qed.

Lemma pop_unfold self :
  QStream.pop self =
    match QStream.system (QStream.index self) self with
    | (Ok sys, self') =>
        (Ok sys, {| QStream.state := QStream.state self';
                    QStream.index := QStream.index self' + 1 |})
    | (Raise e, self') => (Raise e, self')
    end.
Proof.
  unfold QStream.pop, mbind, M_bind, mret, M_ret, get, put.
  now destruct (QStream.system _ _) as [[sys|e] self'].
Qed.

(** [system] never changes the stream. *)
Lemma system_pure self idx : snd (QStream.system idx self) = self.
Proof.
  rewrite system_unfold. now destruct (np.getitem _ _).
Qed.

(** A [pop] that raises leaves the stream as it was, whatever the
    exception. *)
Lemma pop_Raise_unchanged self e self' :
  QStream.pop self = (Raise e, self') -> self' = self.
Proof.
  rewrite pop_unfold.
  pose proof (system_pure self (QStream.index self)) as Hpure.
  destruct (QStream.system _ _) as [[sys|e0] s0]; cbn in Hpure; subst s0.
  - discriminate.
  - now intros [= _ <-].
Qed.

(** With the head on an existing, non-empty row, [pop] hands out the
    view of that row and moves the head by one; the storage is not
    touched. *)
Lemma pop_in_range self v :
  0 <= QStream.index self ->
  QStream.state self !! Z.to_nat (QStream.index self) = Some v ->
  v <> [] ->
  QStream.pop self =
    (Ok {| QSystem.state := Z.to_nat (QStream.index self);
           QSystem.numQubits := Z.log2 (Z.of_nat (length v)) |},
     {| QStream.state := QStream.state self;
        QStream.index := QStream.index self + 1 |}).
Proof.
  intros Hlo Hrow Hv.
  rewrite pop_unfold, system_unfold.
  pose proof (lookup_lt_Some _ _ _ Hrow) as Hlt.
  rewrite getitem_nonneg by lia.
  unfold QSystem.init. rewrite Hrow.
  rewrite log2_int_pos by (destruct v; [contradiction | discriminate]).
  reflexivity.
Qed.
End Access.

Section Cursor.
Context {C : Type} `{Amplitude C}.
Implicit Types (self : QStream.t (C:=C)) (idx : Z).

(** With the head at or past the end, the row access of [pop] raises
    and nothing is written. *)
Lemma pop_out_of_range self :
  QStream.numSystems self <= QStream.index self ->
  QStream.pop self = (Raise IndexError, self).
Proof.
  intros Hhead. rewrite pop_unfold, system_unfold.
  now rewrite getitem_out_of_bounds by (right; exact Hhead).
Qed.

(** [n] pops from head [k], over non-empty rows, return the views of
    rows [k], ..., [k + n - 1] in this order and leave the head at
    [k + n]. *)
Lemma pops_in_order (n : nat) : forall self (k : nat),
  QStream.index self = Z.of_nat k ->
  (k + n <= length (QStream.state self))%nat ->
  Forall (fun v => v <> []) (QStream.state self) ->
  QStream.pops n self =
    (Ok (map (view_of (QStream.state self)) (seq k n)),
     with_index self (Z.of_nat (k + n))).
Proof.
  induction n as [|n IH]; intros self k Hk Hlen Hrows.
  - cbn. unfold mret, M_ret, with_index. rewrite Nat.add_0_r, <- Hk.
    now destruct self.
  - destruct (lookup_lt_is_Some_2 (QStream.state self) k) as [v Hv]; [lia|].
    assert (Hne : v <> []).
    { rewrite Forall_lookup in Hrows. exact (Hrows k v Hv). }
    cbn [QStream.pops]. unfold mbind at 1, M_bind at 1.
    rewrite (pop_in_range self v); rewrite ?Hk, ?Nat2Z.id; try lia; auto.
    unfold mbind at 1, M_bind at 1.
    rewrite (IH _ (S k)); cbn; try lia; auto.
    unfold mret, M_ret, with_index, view_of; cbn. rewrite Hv; cbn.
    repeat f_equal. lia.
Qed.

(** The cursor logic does not depend on the tensor product: whenever the
    constructor's loop leaves a non-empty system state, [numSystems] pops
    on the constructed stream return the views of rows 0, ...,
    [numSystems - 1] in this order. *)
Lemma pops_after_init_with tensorProd (systemSize numSystems : Z) :
  QStream.initialSystemState (C:=C) tensorProd <> [] ->
  0 <= numSystems ->
  exists st : QStream.t,
    QStream.init_with tensorProd systemSize numSystems = Ok st
    /\ QStream.pops (Z.to_nat numSystems) st =
         (Ok (map (view_of (QStream.state st)) (seq 0 (Z.to_nat numSystems))),
          with_index st numSystems).
Proof.
  intros Hne Hm. unfold QStream.init_with, np.repeat.
  destruct (Z.ltb_spec numSystems 0); [lia|].
  eexists. split; [reflexivity|].
  rewrite (pops_in_order _ _ 0%nat); cbn [QStream.state QStream.index].
  - unfold with_index; cbn. now rewrite Z2Nat.id by lia.
  - reflexivity.
  - rewrite length_replicate. lia.
  - apply Forall_replicate. exact Hne.
Qed.
End Cursor.

(** C3. [pop] is [system(head)] followed by [head += 1]: on every stream
    its outcome is the outcome of [system] at the head, and the stream it
    leaves is the same stream with the head moved by one when a view is
    returned (the stream as it was when [system] raises). Consequently, on
    a freshly constructed stream, [numSystems] pops in a row return the
    views of rows 0, 1, ..., [numSystems - 1] in this order (and leave the
    head at [numSystems]). *)
Theorem pop_is_system_then_increment :
  forall (C : Type) (A : Amplitude C),
    (forall self : QStream.t (C:=C),
       QStream.pop self =
         (fst (QStream.system (QStream.index self) self),
          if is_Raise (fst (QStream.system (QStream.index self) self))
          then self
          else with_index self (QStream.index self + 1)))
    /\ (forall (systemSize numSystems : Z) (st : QStream.t (C:=C)),
          QStream.init systemSize numSystems = Ok st ->
          QStream.pops (Z.to_nat numSystems) st =
            (Ok (map (view_of (QStream.state st))
                     (seq 0 (Z.to_nat numSystems))),
             with_index st numSystems)).
Proof.
  intros C A. split.
  - intros self. rewrite pop_unfold.
    pose proof (system_pure self (QStream.index self)) as Hpure.
    destruct (QStream.system _ _) as [[sys|e] s0]; cbn in Hpure; subst s0;
      reflexivity.
  - intros systemSize numSystems st Hinit.
    unfold QStream.init, QStream.init_with, np.repeat in Hinit.
    destruct (Z.ltb_spec numSystems 0) as [|Hm]; [discriminate|].
    injection Hinit as <-.
    rewrite (pops_in_order _ _ 0%nat); cbn [QStream.state QStream.index].
    + unfold with_index; cbn. now rewrite Z2Nat.id by lia.
    + reflexivity.
    + rewrite length_replicate. lia.
    + apply Forall_replicate. discriminate.
Qed.

Lemma pop_is_system_then_increment_witness :
  QStream.pop (fresh_stream 5) =
    (Ok {| QSystem.state := 0; QSystem.numQubits := 2 |},
     with_index (fresh_stream 5) 1)
  /\ QStream.pops 5 (fresh_stream 5) =
       (Ok [ {| QSystem.state := 0; QSystem.numQubits := 2 |};
             {| QSystem.state := 1; QSystem.numQubits := 2 |};
             {| QSystem.state := 2; QSystem.numQubits := 2 |};
             {| QSystem.state := 3; QSystem.numQubits := 2 |};
             {| QSystem.state := 4; QSystem.numQubits := 2 |} ],
        with_index (fresh_stream 5) 5).
Proof.
  destruct (pop_is_system_then_increment Gauss _) as [Hpop Hpops].
  split.
  - rewrite (Hpop (fresh_stream 5)). reflexivity.
  - assert (Hfresh : QStream.init (C:=Gauss) 3 5 = Ok (fresh_stream 5))
      by reflexivity.
    exact (Hpops 3 5 (fresh_stream 5) Hfresh).
Defined.

(** C4. When the head equals the number of systems, [pop] fails: the
    access to the row at the head raises [IndexError], the error by which
    the code reports an exhausted stream. *)
Theorem pop_exhausted :
  forall (C : Type) (A : Amplitude C) (self : QStream.t (C:=C)),
    QStream.index self = QStream.numSystems self ->
    fst (QStream.pop self) = Raise IndexError.
Proof.
  intros C A self Hhead. rewrite pop_out_of_range by lia. reflexivity.
Qed.

Lemma pop_exhausted_witness :
  QStream.index (stream2 1) = QStream.numSystems (stream2 1)
  /\ fst (QStream.pop (stream2 1)) = Raise IndexError.
Proof.
  split; [reflexivity|]. apply (pop_exhausted Gauss _ (stream2 1)). reflexivity.
Defined.

(** C10. A [pop] with the head at or beyond the number of systems fails
    and leaves the stream, its head included, as it was; the same call can
    be made again with the same outcome. *)
Theorem pop_failure_keeps_head :
  forall (C : Type) (A : Amplitude C) (self : QStream.t (C:=C)),
    QStream.numSystems self <= QStream.index self ->
    is_Raise (fst (QStream.pop self)) = true
    /\ QStream.index (snd (QStream.pop self)) = QStream.index self
    /\ snd (QStream.pop self) = self
    /\ QStream.pop (snd (QStream.pop self)) = QStream.pop self.
Proof.
  intros C A self Hhead.
  rewrite (pop_out_of_range self Hhead); cbn.
  rewrite (pop_out_of_range self Hhead). repeat split.
Qed.

Lemma pop_failure_keeps_head_witness :
  QStream.numSystems (stream2 3) <= QStream.index (stream2 3)
  /\ is_Raise (fst (QStream.pop (stream2 3))) = true
  /\ QStream.index (snd (QStream.pop (stream2 3))) = 3
  /\ snd (QStream.pop (stream2 3)) = stream2 3
  /\ QStream.pop (snd (QStream.pop (stream2 3))) = QStream.pop (stream2 3).
Proof.
  split; [unfold QStream.numSystems; cbn; lia|].
  apply (pop_failure_keeps_head Gauss _ (stream2 3)).
  unfold QStream.numSystems; cbn; lia.
Defined.

(** C5, as the code has it. [system(index)] never changes the stream;
    it raises [IndexError] when [index < -numSystems] or
    [index >= numSystems]; an index in [-numSystems, 0) is not refused but
    counts from the end, addressing row [numSystems + index]. *)
Theorem system_index_range :
  forall (C : Type) (A : Amplitude C) (self : QStream.t (C:=C)) (idx : Z),
    snd (QStream.system idx self) = self
    /\ (idx < - QStream.numSystems self \/ QStream.numSystems self <= idx ->
        fst (QStream.system idx self) = Raise IndexError)
    /\ (- QStream.numSystems self <= idx < 0 ->
        fst (QStream.system idx self) =
          QSystem.init (QStream.state self)
            (Z.to_nat (idx + QStream.numSystems self))).
Proof.
  intros C A self idx. split; [apply system_pure|]. split; intros Hidx.
  - rewrite system_unfold, getitem_out_of_bounds by exact Hidx. reflexivity.
  - rewrite system_unfold, getitem_negative by exact Hidx. reflexivity.
Qed.

Lemma system_index_range_witness :
  snd (QStream.system 1 (stream2 0)) = stream2 0
  /\ fst (QStream.system 1 (stream2 0)) = Raise IndexError
  /\ fst (QStream.system (-1) (stream2 0)) =
       QSystem.init (QStream.state (stream2 0)) 0.
Proof.
  destruct (system_index_range Gauss _ (stream2 0) 1) as (Hpure & Hout & _).
  destruct (system_index_range Gauss _ (stream2 0) (-1)) as (_ & _ & Hneg).
  split; [exact Hpure|]. split.
  - apply Hout. right. unfold QStream.numSystems; cbn; lia.
  - apply Hneg. unfold QStream.numSystems; cbn; lia.
Defined.

(** C5, the claim as stated fails: on a stream of one system,
    [system(-1)] returns the view of row 0 instead of failing. *)
Lemma system_negative_index_accepted :
  QStream.system (-1) (stream2 0) =
    (Ok {| QSystem.state := 0; QSystem.numQubits := 2 |}, stream2 0).
Proof. reflexivity. Qed.

(** ** Views and operators *)

Section Views.
Context {C : Type} `{Amplitude C}.
Implicit Types (heap : list (list C)) (v w : list C) (op : Matrix C).

Lemma dot_length op v w : np.dot op v = Ok w -> length w = nrows op.
Proof.
  unfold np.dot. destruct (Nat.eqb _ _); [|discriminate].
  intros [= <-]. apply length_map.
Qed.

Lemma dot_shapes_not_aligned op v :
  ncols op <> length v -> np.dot op v = Raise ValueError.
Proof.
  intros Hc. unfold np.dot.
  now destruct (Nat.eqb_spec (ncols op) (length v)).
Qed.

Lemma assign_cannot_broadcast v w :
  length w <> length v -> length w <> 1%nat ->
  np.assign v w = Raise ValueError.
Proof.
  intros Hlen Hone. unfold np.assign.
  destruct (Nat.eqb_spec (length w) (length v)); [contradiction|].
  destruct w as [|x [|y w]]; cbn in *; congruence.
Qed.

Lemma assign_length v w v' : np.assign v w = Ok v' -> length v' = length v.
Proof.
  unfold np.assign. destruct (Nat.eqb_spec (length w) (length v)) as [E|_].
  - now intros [= <-].
  - destruct w as [|x [|y w]]; try discriminate.
    intros [= <-]. apply length_replicate.
Qed.

(** [apply] never changes the shape of the storage: the number of rows
    and the length of each row stay what they are, so [numQubits] keeps
    describing the row. *)
Lemma apply_keeps_shape heap (sys : QSystem.t) op r heap' :
  QSystem.apply sys op heap = (r, heap') ->
  length <$> heap' = length <$> heap.
Proof.
  unfold QSystem.apply.
  destruct (heap !! QSystem.state sys) as [v|] eqn:Hv; [|now intros [= _ <-]].
  destruct (np.dot op v) as [w|e]; [|now intros [= _ <-]].
  destruct (np.assign v w) as [v'|e] eqn:Hassign; [|now intros [= _ <-]].
  intros [= _ <-]. apply assign_length in Hassign.
  rewrite list_fmap_insert, Hassign.
  apply list_insert_id. now rewrite list_lookup_fmap, Hv.
Qed.

(** An operator of one row is accepted: its single product is written
    to every amplitude. *)
Lemma apply_row_operator heap (sys : QSystem.t) v r :
  heap !! QSystem.state sys = Some v ->
  length r = length v -> length v <> 1%nat ->
  QSystem.apply sys (Build_Matrix (length v) [r]) heap =
    (Ok tt, <[QSystem.state sys := replicate (length v) (np.inner r v)]> heap).
Proof.
  intros Hv Hr Hone. unfold QSystem.apply, np.dot. rewrite Hv; cbn.
  rewrite Nat.eqb_refl. unfold np.assign; cbn.
  destruct (length v) as [|[|k]]; [reflexivity | congruence | reflexivity].
Qed.
End Views.

(** C6, as the code has it. For a system whose state vector has length
    [2^numQubits] and an operator whose shape is neither
    [2^numQubits x 2^numQubits] nor [1 x 2^numQubits], [apply] fails (with
    [ValueError]: the product's shapes are not aligned, or its result
    cannot be broadcast into the row) and leaves the stream, the state
    vector included, as it was. *)
Theorem apply_rejects_mismatched_shape :
  forall (C : Type) (A : Amplitude C) (self : QStream.t (C:=C))
         (sys : QSystem.t) (operator : Matrix C) (v : list C),
    QStream.state self !! QSystem.state sys = Some v ->
    Z.of_nat (length v) = 2 ^ QSystem.numQubits sys ->
    ~ (Z.of_nat (ncols operator) = 2 ^ QSystem.numQubits sys
       /\ (Z.of_nat (nrows operator) = 2 ^ QSystem.numQubits sys
           \/ nrows operator = 1%nat)) ->
    QStream.apply sys operator self = (Raise ValueError, self).
Proof.
  intros C A [heap head] sys operator v Hv Hlen Hshape. cbn in Hv.
  unfold QStream.apply, QSystem.apply; cbn. rewrite Hv.
  destruct (Nat.eq_dec (ncols operator) (length v)) as [Hc|Hc].
  - destruct (np.dot operator v) as [w|e] eqn:Hdot.
    + apply dot_length in Hdot.
      rewrite assign_cannot_broadcast; [reflexivity | |].
      * intros Hr. apply Hshape. split; [lia|]. left. lia.
      * intros Hr. apply Hshape. split; [lia|]. right. lia.
    + unfold np.dot in Hdot. rewrite Hc, Nat.eqb_refl in Hdot. discriminate.
  - now rewrite dot_shapes_not_aligned.
Qed.

Lemma apply_rejects_mismatched_shape_witness :
  QStream.apply sys1 wide_operator
    {| QStream.state := heap1; QStream.index := 0 |} =
  (Raise ValueError, {| QStream.state := heap1; QStream.index := 0 |}).
Proof.
  apply (apply_rejects_mismatched_shape Gauss _ _ sys1 wide_operator [g1; g0]).
  - reflexivity.
  - reflexivity.
  - cbn. intros [Hc _]. lia.
Defined.

(** C6, the claim as stated fails: a 1 x 2 operator applied to a
    one-qubit system is not refused, and the state vector [1, 0] becomes
    [1, 1]. *)
Lemma apply_row_operator_accepted :
  QStream.apply sys1 row_operator
    {| QStream.state := heap1; QStream.index := 0 |} =
  (Ok tt, {| QStream.state := [[g1; g1]]; QStream.index := 0 |}).
Proof. reflexivity. Qed.

(** C7, as the code has it. Over a non-empty row, construction always
    succeeds and [numQubits] is the integer part of the base-2 logarithm
    of the length: [2^numQubits <= length < 2^(numQubits + 1)], which is
    the exact logarithm when the length is a power of two and a truncated
    count otherwise. Only an empty row is a construction error
    ([OverflowError]). *)
Theorem numQubits_is_floor_log2 :
  forall (C : Type) (heap : list (list C)) (ref : nat) (v : list C),
    heap !! ref = Some v ->
    (v = [] -> QSystem.init heap ref = Raise OverflowError)
    /\ (v <> [] ->
        exists sys : QSystem.t,
          QSystem.init heap ref = Ok sys
          /\ QSystem.state sys = ref
          /\ 0 <= QSystem.numQubits sys
          /\ 2 ^ QSystem.numQubits sys <= Z.of_nat (length v)
               < 2 ^ (QSystem.numQubits sys + 1)
          /\ (forall k : Z, 0 <= k -> Z.of_nat (length v) = 2 ^ k ->
                QSystem.numQubits sys = k)).
Proof.
  intros C heap ref v Hv. unfold QSystem.init. rewrite Hv. split.
  - intros ->. reflexivity.
  - intros Hne.
    assert (Hpos : 0 < Z.of_nat (length v)) by (destruct v; [easy | cbn; lia]).
    unfold np.log2_int.
    destruct (Nat.eqb_spec (length v) 0) as [E|_]; [lia|].
    eexists. split; [reflexivity|]. cbn. split; [reflexivity|].
    split; [apply Z.log2_nonneg|]. split.
    + rewrite Z.add_1_r. apply Z.log2_spec. exact Hpos.
    + intros k Hk ->. apply Z.log2_pow2. exact Hk.
Qed.

Lemma numQubits_is_floor_log2_witness :
  QSystem.init [[g1; g0; g0]] 0 = Ok {| QSystem.state := 0; QSystem.numQubits := 1 |}
  /\ QSystem.init [@nil Gauss] 0 = Raise OverflowError.
Proof.
  destruct (numQubits_is_floor_log2 Gauss [[g1; g0; g0]] 0 [g1; g0; g0] eq_refl)
    as [_ Hsys].
  destruct (numQubits_is_floor_log2 Gauss [[]] 0 [] eq_refl) as [Hempty _].
  split; [|apply Hempty; reflexivity].
  destruct Hsys as (sys & Hinit & _); [discriminate|].
  rewrite Hinit. cbn in Hinit. now injection Hinit as <-.
Defined.

(** C7, the claim as stated fails: a view over a row of three amplitudes
    is constructed without an error, with [numQubits = 1]. *)
Lemma init_accepts_length_three :
  QStream.system 0 {| QStream.state := [[g1; g0; g0]]; QStream.index := 0 |} =
    (Ok {| QSystem.state := 0; QSystem.numQubits := 1 |},
     {| QStream.state := [[g1; g0; g0]]; QStream.index := 0 |}).
Proof. reflexivity. Qed.

(** ** Unitary operators, in exact arithmetic

    The source computes with [complex64]; the statements of this part are
    about the same operations over exact amplitudes, where a unitary
    operator is undone by its conjugate transpose and keeps the norm. *)

#[global] Instance Gauss_laws : AmplitudeLaws Gauss.
Proof.
  split; [split|..]; intros; repeat match goal with x : Gauss |- _ => destruct x end;
    cbn; f_equal; ring.
Qed.

Lemma phase_operator_unitary : unitary phase_operator.
Proof. repeat split. Qed.

Section Exact.
Context {C : Type} `{AmplitudeLaws C}.
Implicit Types (a b v w : list C) (u : Matrix C) (x y c : C).

Add Ring amp_ring : amp_semiring.

Lemma inner_nil_r a : np.inner a [] = czero.
Proof. unfold np.inner. now destruct a. Qed.

Lemma inner_cons x a y v :
  np.inner (x :: a) (y :: v) = cadd (cmul x y) (np.inner a v).
Proof. reflexivity. Qed.

Lemma inner_comm a : forall v, np.inner a v = np.inner v a.
Proof.
  induction a as [|x a IH]; intros [|y v]; try reflexivity.
  rewrite !inner_cons, IH. ring.
Qed.

Lemma inner_zeros n : forall v, np.inner (replicate n czero) v = czero.
Proof.
  induction n as [|n IH]; intros [|y v]; try reflexivity.
  cbn [replicate]. rewrite inner_cons, IH. ring.
Qed.

Lemma inner_scale c a : forall v,
  np.inner (map (cmul c) a) v = cmul c (np.inner a v).
Proof.
  induction a as [|x a IH]; intros [|y v]; cbn [map];
    rewrite ?inner_nil_r, ?inner_cons, ?IH; unfold np.inner; cbn; ring.
Qed.

Lemma inner_vadd a : forall b v,
  length a = length b ->
  np.inner (vadd a b) v = cadd (np.inner a v) (np.inner b v).
Proof.
  induction a as [|x a IH]; intros [|x' b] [|y v] Hlen;
    try discriminate; unfold vadd; cbn [zip_with];
    rewrite ?inner_nil_r, ?inner_cons; try (unfold np.inner; cbn; ring).
  fold (vadd a b). rewrite IH by (cbn in Hlen; lia). ring.
Qed.

Lemma inner_conj a : forall v,
  np.inner (map cconj a) (map cconj v) = cconj (np.inner a v).
Proof.
  induction a as [|x a IH]; intros [|y v]; cbn [map];
    rewrite ?inner_nil_r, ?inner_cons; try (unfold np.inner; cbn; now rewrite cconj_zero).
  now rewrite IH, cconj_add, cconj_mul.
Qed.

Lemma lincomb_length n (c : list C) : forall bs,
  Forall (fun b => length b = n) bs -> length (lincomb n c bs) = n.
Proof.
  induction c as [|x c IH]; intros [|b bs] Hbs; cbn [lincomb];
    try apply length_replicate.
  inversion Hbs as [|? ? Hb Hbs']; subst.
  unfold vadd. rewrite length_zip_with, length_map, IH by exact Hbs'. lia.
Qed.

(** Pairing a combination of rows with [v] combines the pairings. *)
Lemma inner_lincomb n (c : list C) : forall bs v,
  Forall (fun b => length b = n) bs ->
  np.inner (lincomb n c bs) v = np.inner c (map (fun b => np.inner b v) bs).
Proof.
  induction c as [|x c IH]; intros [|b bs] v Hbs; cbn [lincomb map];
    rewrite ?inner_zeros, ?inner_nil_r; try reflexivity.
  inversion Hbs as [|? ? Hb Hbs']; subst.
  rewrite inner_vadd, inner_scale, IH, inner_cons by
    (rewrite ?length_map, ?lincomb_length; auto).
  reflexivity.
Qed.

Lemma transpose_length n : forall (m : list (list C)),
  Forall (fun b => length b = n) m -> length (transpose n m) = n.
Proof.
  induction m as [|r m IH]; intros Hm; cbn [transpose].
  - apply length_replicate.
  - inversion Hm; subst. rewrite length_zip_with, IH by assumption. lia.
Qed.

Lemma map_inner_zip_cons (r : list C) : forall (cols : list (list C)) x v,
  length r = length cols ->
  map (fun col => np.inner col (x :: v)) (zip_with cons r cols) =
    vadd (map (cmul x) r) (map (fun col => np.inner col v) cols).
Proof.
  induction r as [|z r IH]; intros [|col cols] x v Hlen; try discriminate;
    [reflexivity|].
  cbn [zip_with map]. unfold vadd; cbn [zip_with]. fold (vadd (map (cmul x) r)
    (map (fun col => np.inner col v) cols)).
  rewrite IH by (cbn in Hlen; lia). rewrite inner_cons. f_equal. ring.
Qed.

Lemma map_inner_nil (cols : list (list C)) :
  map (fun col => np.inner col []) cols = replicate (length cols) czero.
Proof.
  induction cols as [|col cols IH]; cbn; [reflexivity|].
  now rewrite inner_nil_r, IH.
Qed.

(** Applying the transposed rows to [y] combines the rows with the
    entries of [y]. *)
Lemma transpose_apply n : forall (m : list (list C)) (y : list C),
  Forall (fun b => length b = n) m ->
  map (fun col => np.inner col y) (transpose n m) = lincomb n y m.
Proof.
  induction m as [|r m IH]; intros y Hm; cbn [transpose].
  - destruct y; cbn [lincomb]; clear; induction n; cbn; congruence.
  - inversion Hm as [|? ? Hr Hm']; subst. destruct y as [|x y]; cbn [lincomb].
    + rewrite map_inner_nil, length_zip_with, transpose_length by exact Hm'.
      f_equal. lia.
    + rewrite map_inner_zip_cons by (now rewrite transpose_length).
      now rewrite IH.
Qed.
Lemma inner_delta_miss (i k m : nat) : forall v,
  (i < k)%nat ->
  np.inner (map (fun j => if Nat.eqb j i then cone else czero) (seq k m)) v
    = czero.
Proof.
  revert k. induction m as [|m IH]; intros k [|x v] Hik; try reflexivity.
  cbn [seq map]. rewrite inner_cons, IH by lia.
  destruct (Nat.eqb_spec k i); [lia|]. ring.
Qed.

Lemma identity_apply_from (k : nat) : forall v,
  map (fun i => np.inner
                  (map (fun j => if Nat.eqb j i then cone else czero)
                       (seq k (length v))) v)
      (seq k (length v)) = v.
Proof.
  intros v. revert k. induction v as [|x v IH]; intros k; [reflexivity|].
  cbn [length seq map]. f_equal.
  - rewrite inner_cons, Nat.eqb_refl, inner_delta_miss by lia. ring.
  - rewrite <- (IH (S k)) at 2. apply map_ext_in. intros i Hi.
    apply in_seq in Hi. rewrite inner_cons.
    destruct (Nat.eqb_spec k i); [lia|]. ring.
Qed.

(** The identity operator returns its argument. *)
Lemma identity_apply v :
  map (fun r => np.inner r v) (rows (identity (length v))) = v.
Proof.
  unfold identity, unit_vector; cbn [rows]. rewrite map_map.
  apply identity_apply_from.
Qed.

Lemma well_shaped_Forall u :
  well_shaped u = true -> Forall (fun b => length b = ncols u) (rows u).
Proof.
  unfold well_shaped. rewrite forallb_forall, List.Forall_forall.
  intros Hall b Hb. apply Nat.eqb_eq. now apply Hall.
Qed.

(** The product of two operators acts as their composition. *)
Lemma mmul_apply (a : Matrix C) u v :
  well_shaped u = true ->
  map (fun r => np.inner r v) (rows (mmul a u)) =
    map (fun r => np.inner r (map (fun b => np.inner b v) (rows u))) (rows a).
Proof.
  intros Hu. unfold mmul; cbn [rows]. rewrite map_map.
  apply map_ext. intros r. apply inner_lincomb, well_shaped_Forall, Hu.
Qed.

(** The conjugate transpose of a unitary operator undoes it. *)
Lemma adjoint_undoes u v :
  unitary u -> length v = ncols u ->
  map (fun r => np.inner r (map (fun b => np.inner b v) (rows u)))
      (rows (adjoint u)) = v.
Proof.
  intros (Hshape & _ & Hinv) Hlen.
  rewrite <- mmul_apply by exact Hshape.
  rewrite Hinv, <- Hlen. apply identity_apply.
Qed.

Lemma normSq_inner v : normSq v = np.inner (map cconj v) v.
Proof.
  unfold normSq, np.inner. induction v as [|x v IH]; cbn; [reflexivity|].
  now rewrite IH.
Qed.

(** A unitary operator keeps the squared norm. *)
Lemma unitary_normSq u v :
  unitary u -> length v = ncols u ->
  normSq (map (fun b => np.inner b v) (rows u)) = normSq v.
Proof.
  intros Hu Hlen. pose proof (adjoint_undoes u v Hu Hlen) as Hback.
  destruct Hu as (Hshape & _ & _).
  set (w := map (fun b => np.inner b v) (rows u)) in *.
  unfold adjoint in Hback; cbn [rows] in Hback.
  rewrite transpose_apply in Hback.
  2:{ apply well_shaped_Forall in Hshape. rewrite List.Forall_forall in *.
      intros b Hb. apply in_map_iff in Hb as (b0 & <- & Hb0).
      rewrite length_map. now apply Hshape. }
  rewrite (normSq_inner v), (inner_comm (map cconj v) v).
  rewrite <- Hback at 1.
  rewrite inner_lincomb.
  2:{ apply well_shaped_Forall in Hshape. rewrite List.Forall_forall in *.
      intros b Hb. apply in_map_iff in Hb as (b0 & <- & Hb0).
      rewrite length_map. now apply Hshape. }
  rewrite map_map.
  rewrite (map_ext _ (fun b => cconj (np.inner b v))) by (intros; apply inner_conj).
  rewrite <- (map_map (fun b => np.inner b v) cconj). fold w.
  now rewrite normSq_inner, inner_comm.
Qed.

(** With a square operator of the size of the state vector, [apply]
    overwrites the row with the product. *)
Lemma apply_square (heap : list (list C)) (sys : QSystem.t) u v :
  heap !! QSystem.state sys = Some v ->
  length v = ncols u -> nrows u = ncols u ->
  QSystem.apply sys u heap =
    (Ok tt, <[QSystem.state sys := map (fun r => np.inner r v) (rows u)]> heap).
Proof.
  intros Hv Hlen Hsq. unfold QSystem.apply, np.dot, np.assign. rewrite Hv.
  rewrite Hlen, Nat.eqb_refl, length_map.
  fold (nrows u). rewrite Hsq, Nat.eqb_refl. reflexivity.
Qed.

(** In exact arithmetic, [apply(U)] followed by [apply] of the conjugate
    transpose of a unitary [U] restores the storage. *)
Lemma apply_then_adjoint (heap : list (list C)) (sys : QSystem.t) u v :
  heap !! QSystem.state sys = Some v ->
  unitary u -> length v = ncols u ->
  (_ ← QSystem.apply sys u; QSystem.apply sys (adjoint u)) heap = (Ok tt, heap).
Proof.
  intros Hv Hu Hlen. pose proof Hu as (Hshape & Hsq & _).
  unfold mbind, M_bind. rewrite (apply_square heap sys u v) by assumption.
  pose proof (lookup_lt_Some _ _ _ Hv) as Hlt.
  rewrite (apply_square _ sys (adjoint u) (map (fun r => np.inner r v) (rows u))).
  - rewrite adjoint_undoes by assumption.
    rewrite list_insert_insert_eq, list_insert_id by exact Hv. reflexivity.
  - now rewrite list_lookup_insert_eq.
  - rewrite length_map. reflexivity.
  - unfold nrows, adjoint; cbn [rows ncols].
    rewrite transpose_length; [now rewrite Hsq|].
    apply well_shaped_Forall in Hshape. rewrite List.Forall_forall in *.
    intros b Hb. apply in_map_iff in Hb as (b0 & <- & Hb0).
    rewrite length_map. now apply Hshape.
Qed.

(** In exact arithmetic, [apply] of a unitary operator keeps a state
    vector of unit norm at unit norm. *)
Lemma apply_unitary_unit_norm (heap : list (list C)) (sys : QSystem.t) u v :
  heap !! QSystem.state sys = Some v ->
  unitary u -> length v = ncols u -> normSq v = cone ->
  exists v',
    QSystem.apply sys u heap = (Ok tt, <[QSystem.state sys := v']> heap)
    /\ normSq v' = cone.
Proof.
  intros Hv Hu Hlen Hnorm. pose proof Hu as (_ & Hsq & _).
  eexists. split; [apply apply_square; eassumption|].
  now rewrite unitary_normSq.
Qed.
End Exact.

(** The phase operator on a one-qubit system: applied and undone. *)
Example phase_operator_roundtrip :
  QSystem.apply sys1 phase_operator heap1 = (Ok tt, [[gi; g0]])
  /\ (_ ← QSystem.apply sys1 phase_operator;
      QSystem.apply sys1 (adjoint phase_operator)) heap1 = (Ok tt, heap1)
  /\ normSq [gi; g0] = g1.
Proof. repeat split. Qed.

(** The Kronecker product of two one-qubit basis states is the two-qubit
    basis state, which is what the constructor's loop produces from the
    empty array; a third product gives the three-qubit basis state. *)
Example tensorProd_basis :
  linalg.tensorProd [g1; g0] [g1; g0] = basis0 4
  /\ for_range 2 (fun acc => linalg.tensorProd acc [g1; g0]) [] = basis0 4
  /\ for_range 3 (fun acc => linalg.tensorProd acc [g1; g0]) [] = basis0 8.
Proof. repeat split. Qed.

(** * Further properties of the stream and its views *)

(** ** The head cursor *)

Section CursorMore.
Context {C : Type} `{Amplitude C}.
Implicit Types (self : QStream.t (C:=C)).

Lemma pops_S (n : nat) self :
  QStream.pops (S n) self =
    match QStream.pop self with
    | (Ok sys, self') =>
        match QStream.pops n self' with
        | (Ok rest, self'') => (Ok (sys :: rest), self'')
        | (Raise e, self'') => (Raise e, self'')
        end
    | (Raise e, self') => (Raise e, self')
    end.
Proof.
  cbn [QStream.pops]. unfold mbind, M_bind, mret, M_ret.
  destruct (QStream.pop self) as [[sys|e] self']; [|reflexivity].
  now destruct (QStream.pops n self') as [[rest|e] self''].
Qed.

(** One pop more than the rows left: the pops over the rows succeed, the
    last one raises, and the head stays at the end. *)
Lemma pops_exhaust (n : nat) : forall self (k : nat),
  QStream.index self = Z.of_nat k ->
  (k + n)%nat = length (QStream.state self) ->
  Forall (fun v => v <> []) (QStream.state self) ->
  QStream.pops (S n) self =
    (Raise IndexError, with_index self (Z.of_nat (k + n))).
Proof.
  induction n as [|n IH]; intros self k Hk Hlen Hrows.
  - rewrite pops_S, pop_out_of_range by (unfold QStream.numSystems; lia).
    unfold with_index. rewrite Nat.add_0_r, <- Hk. now destruct self.
  - destruct (lookup_lt_is_Some_2 (QStream.state self) k) as [v Hv]; [lia|].
    assert (Hne : v <> []).
    { rewrite Forall_lookup in Hrows. exact (Hrows k v Hv). }
    rewrite pops_S.
    rewrite (pop_in_range self v); rewrite ?Hk, ?Nat2Z.id; try lia; auto.
    rewrite (IH _ (S k)); cbn [QStream.state QStream.index]; try lia; auto.
    unfold with_index; cbn. repeat f_equal. lia.
Qed.
End CursorMore.

(** X1. Consuming a whole stream: with the head at 0 and no empty row,
    as many pops as there are systems all succeed, return the views of rows
    0, 1, ..., [numSystems - 1] in this order, leave the storage as it was
    and the head at [numSystems]. *)
Theorem pops_whole_stream :
  forall (C : Type) (A : Amplitude C) (self : QStream.t (C:=C)),
    QStream.index self = 0 ->
    Forall (fun v => v <> []) (QStream.state self) ->
    QStream.pops (length (QStream.state self)) self =
      (Ok (map (view_of (QStream.state self))
               (seq 0 (length (QStream.state self)))),
       with_index self (QStream.numSystems self)).
Proof.
  intros C A self Hhead Hrows.
  rewrite (pops_in_order _ self 0%nat); auto.
Qed.

Lemma pops_whole_stream_witness :
  QStream.pops 2 (two_systems 0) =
    (Ok [ {| QSystem.state := 0; QSystem.numQubits := 1 |};
          {| QSystem.state := 1; QSystem.numQubits := 1 |} ],
     two_systems 2).
Proof.
  apply (pops_whole_stream Gauss _ (two_systems 0)).
  - reflexivity.
  - repeat constructor; discriminate.
Defined.

(** X2. One pop too many: with the head at 0 and no empty row,
    [numSystems + 1] pops in a row end in the [IndexError] of the last one;
    the rows have been consumed, the head stays at [numSystems] and the
    storage is as it was. *)
Theorem pops_one_too_many :
  forall (C : Type) (A : Amplitude C) (self : QStream.t (C:=C)),
    QStream.index self = 0 ->
    Forall (fun v => v <> []) (QStream.state self) ->
    QStream.pops (S (length (QStream.state self))) self =
      (Raise IndexError, with_index self (QStream.numSystems self)).
Proof.
  intros C A self Hhead Hrows.
  rewrite (pops_exhaust _ self 0%nat); auto.
Qed.

Lemma pops_one_too_many_witness :
  QStream.pops 3 (two_systems 0) = (Raise IndexError, two_systems 2).
Proof.
  apply (pops_one_too_many Gauss _ (two_systems 0)).
  - reflexivity.
  - repeat constructor; discriminate.
Defined.

(** X3. What a pop does to the stream, whatever its outcome: the storage
    is never changed, the outcome is the outcome of [system] at the head,
    and the head moves by one exactly when a view is returned (it stays
    where it was when the pop raises, whatever the exception). *)
Theorem pop_effect :
  forall (C : Type) (A : Amplitude C) (self : QStream.t (C:=C)),
    QStream.state (snd (QStream.pop self)) = QStream.state self
    /\ fst (QStream.pop self) = fst (QStream.system (QStream.index self) self)
    /\ QStream.index (snd (QStream.pop self)) =
         (if is_Raise (fst (QStream.pop self)) then QStream.index self
          else QStream.index self + 1).
Proof.
  intros C A self. rewrite pop_unfold.
  pose proof (system_pure self (QStream.index self)) as Hpure.
  destruct (QStream.system _ _) as [[sys|e] s0]; cbn in Hpure; subst s0;
    cbn; repeat split.
Qed.

(** X4. A negative head counts from the end: with
    [-numSystems <= head < 0] and a non-empty row at [numSystems + head],
    [pop] returns the view of that row and moves the head to [head + 1]. *)
Theorem pop_negative_head :
  forall (C : Type) (A : Amplitude C) (self : QStream.t (C:=C)) (v : list C),
    - QStream.numSystems self <= QStream.index self < 0 ->
    QStream.state self
      !! Z.to_nat (QStream.index self + QStream.numSystems self) = Some v ->
    v <> [] ->
    QStream.pop self =
      (Ok {| QSystem.state :=
               Z.to_nat (QStream.index self + QStream.numSystems self);
             QSystem.numQubits := Z.log2 (Z.of_nat (length v)) |},
       with_index self (QStream.index self + 1)).
Proof.
  intros C A self v Hhead Hrow Hv.
  rewrite pop_unfold, system_unfold.
  rewrite getitem_negative by exact Hhead.
  fold (QStream.numSystems self).
  unfold QSystem.init. rewrite Hrow.
  rewrite log2_int_pos by (destruct v; [contradiction | discriminate]).
  reflexivity.
Qed.

Lemma pop_negative_head_witness :
  QStream.pop (two_systems (-1)) =
    (Ok {| QSystem.state := 1; QSystem.numQubits := 1 |}, two_systems 0).
Proof.
  apply (pop_negative_head Gauss _ (two_systems (-1)) [g0; g1]).
  - unfold QStream.numSystems; cbn; lia.
  - reflexivity.
  - discriminate.
Defined.

(** X5. Negative indices are aliases: for [0 <= i < numSystems],
    [system(i - numSystems)] returns exactly what [system(i)] returns, a
    view of the same row. *)
Theorem system_negative_alias :
  forall (C : Type) (A : Amplitude C) (self : QStream.t (C:=C)) (i : Z),
    0 <= i < QStream.numSystems self ->
    QStream.system (i - QStream.numSystems self) self = QStream.system i self.
Proof.
  intros C A self i Hi. rewrite !system_unfold.
  rewrite (getitem_nonneg _ i) by exact Hi.
  rewrite getitem_negative by (unfold QStream.numSystems in *; lia).
  fold (QStream.numSystems self).
  now replace (i - QStream.numSystems self + QStream.numSystems self) with i by lia.
Qed.

Lemma system_negative_alias_witness :
  QStream.system (-1) (two_systems 0) = QStream.system 1 (two_systems 0).
Proof.
  apply (system_negative_alias Gauss _ (two_systems 0) 1).
  unfold QStream.numSystems; cbn; lia.
Defined.

(** ** Operator application and the shared storage *)

Section ApplyMore.
Context {C : Type} `{Amplitude C}.
Implicit Types (heap : list (list C)) (v w : list C) (op : Matrix C).

Lemma assign_singleton v x :
  np.assign v [x] = Ok (replicate (length v) x).
Proof.
  unfold np.assign. destruct (Nat.eqb_spec (length [x]) (length v)) as [E|_];
    [|reflexivity].
  cbn in E. rewrite <- E. reflexivity.
Qed.

Lemma assign_Ok_iff v w :
  is_Raise (np.assign v w) = false <->
  length w = length v \/ length w = 1%nat.
Proof.
  unfold np.assign. destruct (Nat.eqb_spec (length w) (length v)) as [E|E].
  - cbn. tauto.
  - destruct w as [|x [|y w]]; cbn in *; split; try tauto; try discriminate;
      intros [?|?]; try lia; try discriminate.
Qed.

(** What a successful [apply] has done. *)
Lemma apply_Ok_inv heap (sys : QSystem.t) op heap' :
  QSystem.apply sys op heap = (Ok tt, heap') ->
  exists v w v',
    heap !! QSystem.state sys = Some v
    /\ np.dot op v = Ok w
    /\ np.assign v w = Ok v'
    /\ heap' = <[QSystem.state sys := v']> heap.
Proof.
  unfold QSystem.apply.
  destruct (heap !! QSystem.state sys) as [v|]; [|discriminate].
  destruct (np.dot op v) as [w|e] eqn:Hdot; [|discriminate].
  destruct (np.assign v w) as [v'|e] eqn:Hassign; [|discriminate].
  intros [= <-]. exists v, w, v'. repeat split; assumption.
Qed.

Lemma getitem_insert heap (k : nat) v (i : Z) :
  np.getitem (<[k := v]> heap) i = np.getitem heap i.
Proof. unfold np.getitem. now rewrite length_insert. Qed.

(** Overwriting a row by a row of the same length changes no view. *)
Lemma init_insert_same_length heap (k ref : nat) v v' :
  heap !! k = Some v -> length v' = length v ->
  QSystem.init (<[k := v']> heap) ref = QSystem.init heap ref.
Proof.
  intros Hv Hlen. unfold QSystem.init.
  destruct (decide (k = ref)) as [->|Hne].
  - rewrite list_lookup_insert_eq by (now apply lookup_lt_Some in Hv).
    now rewrite Hv, Hlen.
  - now rewrite list_lookup_insert_ne.
Qed.
End ApplyMore.

(** X6. [apply] touches the row of its system and nothing else: whatever
    the operator and the outcome, the storage keeps its number of rows
    and every other row is left as it was. *)
Theorem apply_frame :
  forall (C : Type) (A : Amplitude C) (heap : list (list C))
         (sys : QSystem.t) (op : Matrix C) (j : nat),
    j <> QSystem.state sys ->
    length (snd (QSystem.apply sys op heap)) = length heap
    /\ snd (QSystem.apply sys op heap) !! j = heap !! j.
Proof.
  intros C A heap sys op j Hj. unfold QSystem.apply.
  destruct (heap !! QSystem.state sys) as [v|]; [|now split].
  destruct (np.dot op v) as [w|e]; [|now split].
  destruct (np.assign v w) as [v'|e]; [|now split].
  cbn. split; [apply length_insert|].
  apply list_lookup_insert_ne. congruence.
Qed.

Lemma apply_frame_witness :
  length (snd (QSystem.apply sys1 flip_operator (QStream.state (two_systems 0))))
    = 2%nat
  /\ snd (QSystem.apply sys1 flip_operator (QStream.state (two_systems 0))) !! 1%nat
     = Some [g0; g1].
Proof.
  apply (apply_frame Gauss _ (QStream.state (two_systems 0)) sys1 flip_operator 1).
  discriminate.
Defined.

(** X7. A failing [apply] writes nothing: when [apply] raises, whatever
    the exception, the storage is exactly what it was before the call. *)
Theorem apply_failure_writes_nothing :
  forall (C : Type) (A : Amplitude C) (heap : list (list C))
         (sys : QSystem.t) (op : Matrix C),
    is_Raise (fst (QSystem.apply sys op heap)) = true ->
    snd (QSystem.apply sys op heap) = heap.
Proof.
  intros C A heap sys op. unfold QSystem.apply.
  destruct (heap !! QSystem.state sys) as [v|]; [|reflexivity].
  destruct (np.dot op v) as [w|e0]; [|reflexivity].
  destruct (np.assign v w) as [v'|e0]; [discriminate | reflexivity].
Qed.

Lemma apply_failure_writes_nothing_witness :
  is_Raise (fst (QSystem.apply sys1 wide_operator heap1)) = true
  /\ snd (QSystem.apply sys1 wide_operator heap1) = heap1.
Proof.
  split; [reflexivity|].
  apply (apply_failure_writes_nothing Gauss _ heap1 sys1 wide_operator).
  reflexivity.
Defined.

(** X8. When [apply] succeeds: for a system viewing the row [v], [apply]
    succeeds exactly when the operator has as many columns as [v] has
    amplitudes and either as many rows or a single row. *)
Theorem apply_succeeds_iff :
  forall (C : Type) (A : Amplitude C) (heap : list (list C))
         (sys : QSystem.t) (op : Matrix C) (v : list C),
    heap !! QSystem.state sys = Some v ->
    (is_Raise (fst (QSystem.apply sys op heap)) = false
     <-> ncols op = length v
         /\ (nrows op = length v \/ nrows op = 1%nat)).
Proof.
  intros C A heap sys op v Hv. unfold QSystem.apply. rewrite Hv.
  destruct (Nat.eq_dec (ncols op) (length v)) as [Hc|Hc].
  - destruct (np.dot op v) as [w|e] eqn:Hdot.
    + pose proof (dot_length _ _ _ Hdot) as Hw.
      pose proof (assign_Ok_iff v w) as Hassign. rewrite Hw in Hassign.
      destruct (np.assign v w) as [v'|e]; cbn in *; tauto.
    + unfold np.dot in Hdot. rewrite Hc, Nat.eqb_refl in Hdot. discriminate.
  - rewrite dot_shapes_not_aligned by exact Hc. cbn. split; [discriminate | tauto].
Qed.

Lemma apply_succeeds_iff_witness :
  is_Raise (fst (QSystem.apply sys1 row_operator heap1)) = false
  <-> ncols row_operator = 2%nat
      /\ (nrows row_operator = 2%nat \/ nrows row_operator = 1%nat).
Proof.
  apply (apply_succeeds_iff Gauss _ heap1 sys1 row_operator [g1; g0]).
  reflexivity.
Defined.

(** X9. [apply] never invalidates a view: whatever the operator and the
    outcome, every row keeps its length, so constructing a view over any
    row after the call gives the same system, with the same [numQubits],
    as before the call. *)
Theorem apply_keeps_views :
  forall (C : Type) (A : Amplitude C) (heap : list (list C))
         (sys : QSystem.t) (op : Matrix C) (ref : nat),
    QSystem.init (snd (QSystem.apply sys op heap)) ref = QSystem.init heap ref.
Proof.
  intros C A heap sys op ref.
  destruct (QSystem.apply sys op heap) as [r heap'] eqn:Happly.
  apply apply_keeps_shape in Happly. cbn [snd].
  assert (Hlen : length <$> (heap' !! ref) = length <$> (heap !! ref)).
  { rewrite <- !list_lookup_fmap. now rewrite Happly. }
  unfold QSystem.init.
  destruct (heap' !! ref) as [v'|], (heap !! ref) as [v|];
    cbn in Hlen; try discriminate; [|reflexivity].
  injection Hlen as ->. reflexivity.
Qed.

(** X10. Views share the storage: after a successful [apply] through a
    view obtained from [system(i)], the head has not moved, a new call of
    [system(i)] returns the same view again, and the row that view reads
    is the product of the operator with the old row (broadcast into the
    row). *)
Theorem views_share_storage :
  forall (C : Type) (A : Amplitude C) (self self' : QStream.t (C:=C))
         (i : Z) (a : QSystem.t) (op : Matrix C),
    QStream.system i self = (Ok a, self) ->
    QStream.apply a op self = (Ok tt, self') ->
    QStream.system i self' = (Ok a, self')
    /\ QStream.index self' = QStream.index self
    /\ exists v w v',
         QStream.state self !! QSystem.state a = Some v
         /\ np.dot op v = Ok w
         /\ np.assign v w = Ok v'
         /\ QStream.state self' !! QSystem.state a = Some v'.
Proof.
  intros C A [heap head] self' i a op Hsys Happly.
  unfold QStream.apply in Happly; cbn in Happly.
  destruct (QSystem.apply a op heap) as [r heap'] eqn:Hq.
  injection Happly as -> <-.
  destruct (apply_Ok_inv _ _ _ _ Hq) as (v & w & v' & Hv & Hdot & Hassign & ->).
  split; [|split; [reflexivity|]].
  - rewrite system_unfold in Hsys |- *; cbn [QStream.state] in *.
    rewrite getitem_insert.
    destruct (np.getitem heap i) as [ref|e]; [|discriminate].
    rewrite (init_insert_same_length heap _ ref v v' Hv)
      by (now apply assign_length in Hassign).
    now injection Hsys as ->.
  - exists v, w, v'. cbn [QStream.state]. repeat split; try assumption.
    apply list_lookup_insert_eq. now apply lookup_lt_Some in Hv.
Qed.

Lemma views_share_storage_witness :
  QStream.system 0
    {| QStream.state := [[g0; g1]; [g0; g1]]; QStream.index := 0 |} =
  (Ok sys1, {| QStream.state := [[g0; g1]; [g0; g1]]; QStream.index := 0 |})
  /\ QStream.state {| QStream.state := [[g0; g1]; [g0; g1]]; QStream.index := 0 |}
       !! 0%nat = Some [g0; g1].
Proof.
  destruct (views_share_storage Gauss _ (two_systems 0)
              {| QStream.state := [[g0; g1]; [g0; g1]]; QStream.index := 0 |}
              0 sys1 flip_operator)
    as (Hagain & _ & v & w & v' & Hv & Hdot & Hassign & Hrow);
    [reflexivity | reflexivity |].
  split; [exact Hagain | reflexivity].
Defined.

(** ** Qubits *)

(** The qubits of a system carry the indices 0, 1, ..., [numQubits - 1]
    and all refer to the system itself. *)
Lemma qubits_lookup (sys : QSystem.t) (i : nat) :
  Z.of_nat i < QSystem.numQubits sys ->
  qubits sys !! i = Some {| Qubit.index := Z.of_nat i; Qubit.qSystem := sys |}.
Proof.
  intros Hi. unfold qubits, range.
  rewrite list_lookup_fmap, lookup_seqZ_lt by exact Hi. reflexivity.
Qed.

Lemma qubits_length (sys : QSystem.t) :
  length (qubits sys) = Z.to_nat (QSystem.numQubits sys).
Proof. unfold qubits, range. now rewrite length_fmap, length_seqZ. Qed.

(** X11. The qubits of a view: over a row of [2^k] amplitudes, the view
    is constructed and [qubits()] yields exactly [k] qubits, with the
    indices 0, 1, ..., [k - 1] in this order (the indices start at 0), each
    referring to that same view. A row of a single amplitude gives a
    system without qubits. *)
Theorem qubits_of_view :
  forall (C : Type) (heap : list (list C)) (ref : nat) (v : list C) (k : nat),
    heap !! ref = Some v ->
    length v = (2 ^ k)%nat ->
    exists sys : QSystem.t,
      QSystem.init heap ref = Ok sys
      /\ length (qubits sys) = k
      /\ (forall i : nat, (i < k)%nat ->
            qubits sys !! i =
              Some {| Qubit.index := Z.of_nat i; Qubit.qSystem := sys |}).
Proof.
  intros C heap ref v k Hv Hlen. unfold QSystem.init. rewrite Hv.
  assert (Hpos : (2 ^ k <> 0)%nat) by (apply Nat.pow_nonzero; lia).
  rewrite log2_int_pos by lia.
  assert (Hk : Z.log2 (Z.of_nat (length v)) = Z.of_nat k).
  { rewrite Hlen, Nat2Z.inj_pow. apply Z.log2_pow2. lia. }
  rewrite Hk. eexists. split; [reflexivity|]. split.
  - rewrite qubits_length. cbn. lia.
  - intros i Hi. apply qubits_lookup. cbn. lia.
Qed.

Lemma qubits_of_view_witness :
  exists sys : QSystem.t,
    QSystem.init (QStream.state (stream2 0)) 0 = Ok sys
    /\ length (qubits sys) = 2%nat
    /\ (forall i : nat, (i < 2)%nat ->
          qubits sys !! i =
            Some {| Qubit.index := Z.of_nat i; Qubit.qSystem := sys |}).
Proof.
  apply (qubits_of_view Gauss (QStream.state (stream2 0)) 0 [g1; g0; g0; g0] 2);
    reflexivity.
Defined.

(** ** Operators on a stream, in exact arithmetic *)

Section ExactStream.
Context {C : Type} `{AmplitudeLaws C}.

Lemma identity_nrows (n : nat) : nrows (identity (C:=C) n) = n.
Proof. unfold nrows, identity; cbn [rows]. now rewrite length_map, length_seq. Qed.

Lemma adjoint_nrows (u : Matrix C) :
  well_shaped u = true -> nrows (adjoint u) = ncols u.
Proof.
  intros Hshape. unfold nrows, adjoint; cbn [rows].
  apply transpose_length.
  apply well_shaped_Forall in Hshape. rewrite List.Forall_forall in *.
  intros b Hb. apply in_map_iff in Hb as (b0 & <- & Hb0).
  rewrite length_map. now apply Hshape.
Qed.
End ExactStream.

(** X12. The identity operator, over exact amplitudes: for a system
    viewing a row of [n] amplitudes, [apply] of the [n x n] identity
    succeeds and leaves the whole stream, that row included, as it was. *)
Theorem apply_identity :
  forall (C : Type) (A : Amplitude C) (L : AmplitudeLaws C)
         (self : QStream.t (C:=C)) (sys : QSystem.t) (v : list C),
    QStream.state self !! QSystem.state sys = Some v ->
    QStream.apply sys (identity (length v)) self = (Ok tt, self).
Proof.
  intros C A L [heap head] sys v Hv. cbn in Hv.
  unfold QStream.apply; cbn [QStream.state QStream.index].
  rewrite (apply_square heap sys (identity (length v)) v Hv eq_refl)
    by apply identity_nrows.
  rewrite identity_apply, list_insert_id by exact Hv. reflexivity.
Qed.

Lemma apply_identity_witness :
  QStream.apply sys1 (identity 2) (two_systems 0) = (Ok tt, two_systems 0).
Proof.
  apply (apply_identity Gauss _ Gauss_laws (two_systems 0) sys1 [g1; g0]).
  reflexivity.
Defined.

(** X13. A unitary operator and its conjugate transpose, over exact
    amplitudes: for a system viewing a row of [n] amplitudes and a unitary
    [n x n] operator [U], [apply(U)] followed by [apply] of the conjugate
    transpose of [U] both succeed and leave the stream exactly as it was
    before the two calls. *)
Theorem apply_adjoint_round_trip :
  forall (C : Type) (A : Amplitude C) (L : AmplitudeLaws C)
         (self : QStream.t (C:=C)) (sys : QSystem.t) (u : Matrix C) (v : list C),
    QStream.state self !! QSystem.state sys = Some v ->
    unitary u -> length v = ncols u ->
    (_ ← QStream.apply sys u; QStream.apply sys (adjoint u)) self = (Ok tt, self).
Proof.
  intros C A L [heap head] sys u v Hv Hu Hlen. cbn in Hv.
  pose proof Hu as (Hshape & Hsq & _).
  unfold mbind, M_bind, QStream.apply; cbn [QStream.state QStream.index].
  rewrite (apply_square heap sys u v) by assumption.
  cbn [QStream.state QStream.index].
  pose proof (lookup_lt_Some _ _ _ Hv) as Hlt.
  rewrite (apply_square _ sys (adjoint u) (map (fun r => np.inner r v) (rows u))).
  - rewrite adjoint_undoes by assumption.
    rewrite list_insert_insert_eq, list_insert_id by exact Hv. reflexivity.
  - now rewrite list_lookup_insert_eq.
  - rewrite length_map. reflexivity.
  - rewrite adjoint_nrows by exact Hshape. unfold adjoint; cbn [ncols].
    now rewrite Hsq.
Qed.

Lemma apply_adjoint_round_trip_witness :
  (_ ← QStream.apply sys1 phase_operator;
   QStream.apply sys1 (adjoint phase_operator)) (two_systems 0)
  = (Ok tt, two_systems 0).
Proof.
  apply (apply_adjoint_round_trip Gauss _ Gauss_laws (two_systems 0) sys1
           phase_operator [g1; g0]).
  - reflexivity.
  - repeat split.
  - reflexivity.
Defined.

(** X14. Unitary operators keep the norm, over exact amplitudes: for a
    system viewing a row of unit norm (the squares of the moduli of its
    amplitudes sum to one) and a unitary operator of its size, [apply]
    succeeds and the row it leaves has unit norm again. *)
Theorem apply_unitary_keeps_norm :
  forall (C : Type) (A : Amplitude C) (L : AmplitudeLaws C)
         (self : QStream.t (C:=C)) (sys : QSystem.t) (u : Matrix C) (v : list C),
    QStream.state self !! QSystem.state sys = Some v ->
    unitary u -> length v = ncols u -> normSq v = cone ->
    exists (self' : QStream.t) (v' : list C),
      QStream.apply sys u self = (Ok tt, self')
      /\ QStream.state self' !! QSystem.state sys = Some v'
      /\ normSq v' = cone.
Proof.
  intros C A L [heap head] sys u v Hv Hu Hlen Hnorm. cbn in Hv.
  pose proof Hu as (_ & Hsq & _).
  unfold QStream.apply; cbn [QStream.state QStream.index].
  rewrite (apply_square heap sys u v) by assumption.
  eexists _, _. split; [reflexivity|]. cbn [QStream.state]. split.
  - apply list_lookup_insert_eq. now apply lookup_lt_Some in Hv.
  - now rewrite unitary_normSq.
Qed.

Lemma apply_unitary_keeps_norm_witness :
  exists (self' : QStream.t) (v' : list Gauss),
    QStream.apply sys1 phase_operator (two_systems 0) = (Ok tt, self')
    /\ QStream.state self' !! 0%nat = Some v'
    /\ normSq v' = g1.
Proof.
  apply (apply_unitary_keeps_norm Gauss _ Gauss_laws (two_systems 0) sys1
           phase_operator [g1; g0]).
  - reflexivity.
  - repeat split.
  - reflexivity.
  - reflexivity.
Defined.

(** X15. An operator of a single row is broadcast: for a system viewing
    a row [v] and an operator with one row [r] and as many columns as [v]
    has amplitudes, [apply] succeeds and overwrites every amplitude of the
    row with the one number [r_0 * v_0 + r_1 * v_1 + ...]; the length of
    the row is kept. *)
Theorem apply_single_row_broadcasts :
  forall (C : Type) (A : Amplitude C) (heap : list (list C))
         (sys : QSystem.t) (op : Matrix C) (v r : list C),
    heap !! QSystem.state sys = Some v ->
    rows op = [r] -> ncols op = length v ->
    QSystem.apply sys op heap =
      (Ok tt, <[QSystem.state sys := replicate (length v) (np.inner r v)]> heap).
Proof.
  intros C A heap sys op v r Hv Hrows Hcols.
  unfold QSystem.apply, np.dot. rewrite Hv, Hrows, Hcols, Nat.eqb_refl.
  cbn [map]. now rewrite assign_singleton.
Qed.

Lemma apply_single_row_broadcasts_witness :
  QSystem.apply sys1 row_operator heap1 = (Ok tt, [[g1; g1]]).
Proof.
  rewrite (apply_single_row_broadcasts Gauss _ heap1 sys1 row_operator
             [g1; g0] [g1; g1]) by reflexivity.
  reflexivity.
Defined.

(** X16. Any number of pops, on any stream and whatever their outcome:
    the storage is never changed, and the head never moves backwards and
    advances by at most one per call. *)
Theorem pops_invariant :
  forall (C : Type) (A : Amplitude C) (n : nat) (self : QStream.t (C:=C)),
    QStream.state (snd (QStream.pops n self)) = QStream.state self
    /\ QStream.index self <= QStream.index (snd (QStream.pops n self))
         <= QStream.index self + Z.of_nat n.
Proof.
  intros C A n. induction n as [|n IH]; intros self.
  - unfold QStream.pops, mret, M_ret; cbn. split; [reflexivity | lia].
  - rewrite pops_S, pop_unfold.
    pose proof (system_pure self (QStream.index self)) as Hpure.
    destruct (QStream.system _ _) as [[sys|e] s0]; cbn in Hpure; subst s0.
    + specialize (IH {| QStream.state := QStream.state self;
                        QStream.index := QStream.index self + 1 |}).
      destruct (QStream.pops n _) as [[rest|e] s']; cbn in IH |- *;
        (split; [tauto | lia]).
    + cbn. split; [reflexivity | lia].
Qed.

(** ** The rows of a constructed stream *)

Section FreshRows.
Context {C : Type} `{AmplitudeLaws C}.

Add Ring amp_ring_fresh : amp_semiring.

Lemma cconj_one : cconj cone = cone :> C.
Proof.
  rewrite <- (cconj_invol cone) at 2.
  replace (cconj cone) with (cmul cone (cconj cone)) at 2 by ring.
  rewrite cconj_mul, cconj_invol. ring.
Qed.

Lemma initialSystemState_basis0 :
  QStream.initialSystemState linalg.tensorProd = basis0 (C:=C) 4.
Proof.
  rewrite initialSystemState_value. cbn. repeat f_equal; ring.
Qed.

Lemma normSq_basis0_4 : normSq (basis0 (C:=C) 4) = cone.
Proof.
  unfold normSq; cbn. rewrite cconj_one, cconj_zero. ring.
Qed.
End FreshRows.

(** X17. The rows of a constructed stream, over exact amplitudes:
    whatever [systemSize] and [numSystems] are, every row of the stream the
    constructor returns is the four-entry vector with amplitude one at
    index 0 and zero elsewhere, and it has unit norm. *)
Theorem fresh_rows_unit_norm :
  forall (C : Type) (A : Amplitude C) (L : AmplitudeLaws C)
         (systemSize numSystems : Z) (st : QStream.t (C:=C)) (row : list C),
    QStream.init systemSize numSystems = Ok st ->
    row ∈ QStream.state st ->
    row = basis0 4 /\ normSq row = cone.
Proof.
  intros C A L systemSize numSystems st row Hinit Hrow.
  rewrite (init_rows _ _ _ _ Hinit Hrow), initialSystemState_basis0.
  split; [reflexivity | apply normSq_basis0_4].
Qed.

Lemma fresh_rows_unit_norm_witness :
  [g1; g0; g0; g0] = basis0 4 /\ normSq [g1; g0; g0; g0] = g1.
Proof.
  apply (fresh_rows_unit_norm Gauss _ Gauss_laws 3 5 (fresh_stream 5)).
  - reflexivity.
  - cbn. apply list_elem_of_here.
Defined.
